(** * ziglua: the Luau assertion bridge and memory-release shim

    A shallow embedding of [src/zigluau/luau.cpp]:

    - [assertionHandler], the callback that prints one diagnostic line and
      answers [1];
    - [zig_registerAssertionHandler], which stores that callback in Luau's
      process-wide handler slot;
    - [zig_luau_free], which hands its argument to the C library's [free].

    The three functions are straight-line C++ whose whole behaviour is the
    external calls they make.  Each is therefore embedded as a program over
    the primitive calls it performs ([prog]), and the primitives ([printf],
    the handler slot, [free]) are given their meaning on an explicit process
    state ([run]).  The state holds what these calls touch: the standard
    output stream with its buffer, the handler slot and the host allocator's
    live blocks. *)

From Stdlib Require Import ZArith NArith Ascii String List Lia.
From stdpp Require Import base option gmap strings.

Local Open Scope string_scope.

(** ** C values *)

(** An address; [NULL] is address zero. *)
Definition pointer := N.
Definition NULL : pointer := 0%N.

(** A [const char*] argument is represented by the characters stored at its
    target.  The text of the C string is what comes before the first NUL
    character, which is how every consumer of a C string reads it. *)
Fixpoint c_str (s : string) : string :=
  match s with
  | EmptyString => EmptyString
  | String c rest => if Ascii.eqb c zero then EmptyString else String c (c_str rest)
  end.

(** A value passed through the variadic part of [printf]. *)
Inductive vararg : Type :=
| VStr (s : string)
| VInt (z : Z).

(** ** The C library's formatted output *)

Definition digit_char (d : N) : ascii := ascii_of_N (48 + d).

(** Digits are produced from the least significant one, each pushed in front
    of the ones already produced. [fuel] bounds the number of digits. *)
Fixpoint dec_loop (fuel : nat) (n : N) (acc : string) : string :=
  match fuel with
  | O => acc
  | S fuel' =>
      let acc' := String (digit_char (n mod 10)) acc in
      if (n / 10 =? 0)%N then acc' else dec_loop fuel' (n / 10) acc'
  end.

Definition dec_of_N (n : N) : string := dec_loop (S (N.to_nat (N.size n))) n "".

(** The [%d] conversion: a minus sign for a negative value, then the digits
    of the magnitude without leading zeros. *)
Definition fmt_d (z : Z) : string :=
  match z with
  | Zneg p => String "-" (dec_of_N (Npos p))
  | _ => dec_of_N (Z.to_N z)
  end.

(** Interpretation of a format string against its arguments, for the
    conversions this program uses: [%s], [%d] and [%%].  A conversion without
    a matching argument of the right type is undefined behaviour in C and
    gives [None], as does a conversion outside this set. *)
Fixpoint format (fmt : string) (args : list vararg) : option string :=
  match fmt with
  | EmptyString => Some EmptyString
  | String "%" (String "s" rest) =>
      match args with
      | VStr s :: args' => option_map (String.append (c_str s)) (format rest args')
      | _ => None
      end
  | String "%" (String "d" rest) =>
      match args with
      | VInt z :: args' => option_map (String.append (fmt_d z)) (format rest args')
      | _ => None
      end
  | String "%" (String "%" rest) => option_map (String "%") (format rest args)
  | String "%" _ => None
  | String c rest => option_map (String c) (format rest args)
  end.

(** ** Reading a decimal numeral back (used to state what [%d] prints) *)

Definition digit_of_char (c : ascii) : option N :=
  let n := N_of_ascii c in
  if ((48 <=? n) && (n <=? 57))%N then Some (n - 48)%N else None.

Fixpoint digits_value (s : string) (acc : N) : option N :=
  match s with
  | EmptyString => Some acc
  | String c rest =>
      match digit_of_char c with
      | Some d => digits_value rest (10 * acc + d)
      | None => None
      end
  end.

Definition decimal_value (s : string) : option Z :=
  match s with
  | EmptyString => None
  | String "-" EmptyString => None
  | String "-" rest => option_map (fun n => (- Z.of_N n)%Z) (digits_value rest 0)
  | _ => option_map Z.of_N (digits_value s 0)
  end.

(** A numeral in the shape [%d] produces: not empty, no leading zero except
    for ["0"] itself, and no ["-0"]. *)
Definition canonical_decimal (s : string) : bool :=
  match s with
  | EmptyString => false
  | String "-" EmptyString => false
  | String "-" (String "0" _) => false
  | String "0" (String _ _) => false
  | _ => true
  end.

(** Number of newline characters of a text. *)
Fixpoint newlines (s : string) : nat :=
  match s with
  | EmptyString => O
  | String c rest => (if Ascii.eqb c "010" then 1 else 0) + newlines rest
  end.

(** ** Process state *)

(** A value of Luau's [AssertHandler] function-pointer type: the null
    pointer, the address of this file's [assertionHandler], or the address of
    some other function of the process. *)
Inductive handler_ptr : Type :=
| nullptr
| addr_assertionHandler
| addr_other (id : nat).

(** The buffer of the standard output stream. ISO C leaves it to the library
    when a stream gets its buffer; a library such as glibc takes it from the
    host allocator at the first write to the stream. [BufferOnFirstWrite base
    size] is a stream not written to yet, together with the block the
    allocator hands out when the library asks for the buffer (a null or
    already live [base] stands for a request the allocator refuses, after
    which the stream runs without a buffer of its own). [BufferInPlace] is a
    stream whose buffer question is settled: writes allocate nothing. *)
Inductive stream_buffer : Type :=
| BufferOnFirstWrite (base size : N)
| BufferInPlace.

(** What the shim can observe or change of the process: the characters
    written to the standard output stream so far, Luau's handler slot, the
    host allocator's bookkeeping (the live blocks, base address to size), and
    the state of the standard output stream's buffer. *)
Record process : Type := Process {
  stdout : string;
  assert_slot : handler_ptr;
  heap : gmap N N;
  stdout_buf : stream_buffer
}.

(** The live blocks once the stream has its buffer. *)
Definition heap_with_buffer (buf : stream_buffer) (hp : gmap N N) : gmap N N :=
  match buf with
  | BufferInPlace => hp
  | BufferOnFirstWrite base size =>
      if (base =? 0)%N then hp
      else match hp !! base with
           | Some _ => hp
           | None => <[base := size]> hp
           end
  end.

(** A write to the standard output stream: the stream gets its buffer if it
    has none yet, and the text is appended to what was written before. *)
Definition write_stdout (out : string) (st : process) : process :=
  {| stdout := stdout st +:+ out;
     assert_slot := assert_slot st;
     heap := heap_with_buffer (stdout_buf st) (heap st);
     stdout_buf := BufferInPlace |}.

Definition set_assert_slot (h : handler_ptr) (st : process) : process :=
  {| stdout := stdout st; assert_slot := h; heap := heap st;
     stdout_buf := stdout_buf st |}.

Definition set_heap (hp : gmap N N) (st : process) : process :=
  {| stdout := stdout st; assert_slot := assert_slot st; heap := hp;
     stdout_buf := stdout_buf st |}.

(** Result of running a piece of code: it returns a value in a new state, or
    its behaviour is undefined. *)
Inductive outcome (A : Type) : Type :=
| Done (a : A) (st : process)
| Undefined.
Arguments Done {A} a st.
Arguments Undefined {A}.

(** ** Programs over primitive calls *)

(** The external calls made by the code of this file and by Luau's assertion
    machinery. *)
Inductive call : Type -> Type :=
| Printf (fmt : string) (args : list vararg) : call Z
| StoreAssertHandler (h : handler_ptr) : call unit
| LoadAssertHandler : call handler_ptr
| Free (p : pointer) : call unit.

(** Straight-line code: return a value, or make a call and continue with
    its result. *)
Inductive prog (A : Type) : Type :=
| Ret (a : A)
| Do {X : Type} (c : call X) (k : X -> prog A).
Arguments Ret {A} a.
Arguments Do {A X} c k.

Fixpoint prog_bind {A B : Type} (f : A -> prog B) (p : prog A) : prog B :=
  match p with
  | Ret a => f a
  | Do c k => Do c (fun x => prog_bind f (k x))
  end.

#[global] Instance prog_ret : MRet prog := fun _ a => Ret a.
#[global] Instance prog_mbind : MBind prog := fun _ _ f p => prog_bind f p.

(** The two C library functions the shim calls. *)
Definition printf (fmt : string) (args : list vararg) : prog Z := Do (Printf fmt args) Ret.
Definition free (p : pointer) : prog unit := Do (Free p) Ret.

(** ** Meaning of the primitive calls *)

(** The release primitive of a host allocator, acting on its bookkeeping;
    [None] is undefined behaviour. *)
Definition release_prim : Type := pointer -> gmap N N -> option (gmap N N).

(** The C library's [free] (ISO C 7.22.3.3): no action on a null pointer; a
    pointer to a live block deallocates it; anything else is undefined. *)
Definition libc_free : release_prim := fun p hp =>
  if (p =? NULL)%N then Some hp
  else match hp !! p with
       | Some _ => Some (delete p hp)
       | None => None
       end.

(** One call. [printf] writes the formatted text to the standard output
    stream, which is taken to accept it, and returns the number of characters
    written; the write is the stream's ([write_stdout]), so the first one
    also sets up the stream's buffer. *)
Definition exec_call (release : release_prim) {X : Type} (c : call X) (st : process)
  : outcome X :=
  match c in call X0 return outcome X0 with
  | Printf fmt args =>
      match format fmt args with
      | Some out => Done (Z.of_nat (String.length out)) (write_stdout out st)
      | None => Undefined
      end
  | StoreAssertHandler h => Done tt (set_assert_slot h st)
  | LoadAssertHandler => Done (assert_slot st) st
  | Free p =>
      match release p (heap st) with
      | Some hp => Done tt (set_heap hp st)
      | None => Undefined
      end
  end.

Fixpoint run_with (release : release_prim) {A : Type} (p : prog A) (st : process)
  : outcome A :=
  match p with
  | Ret a => Done a st
  | Do c k =>
      match exec_call release c st with
      | Done x st' => run_with release (k x) st'
      | Undefined => Undefined
      end
  end.

(** Running on the C library's allocator. *)
Definition run {A : Type} (p : prog A) (st : process) : outcome A :=
  run_with libc_free p st.

(** The primitive calls made, in order, when running from [st]
    ([trace_with] below). *)
Inductive event : Type :=
| EvPrintf (fmt : string) (args : list vararg)
| EvStoreAssertHandler (h : handler_ptr)
| EvLoadAssertHandler
| EvFree (p : pointer).

Definition event_of {X : Type} (c : call X) : event :=
  match c with
  | Printf fmt args => EvPrintf fmt args
  | StoreAssertHandler h => EvStoreAssertHandler h
  | LoadAssertHandler => EvLoadAssertHandler
  | Free p => EvFree p
  end.

Fixpoint trace_with (release : release_prim) {A : Type} (p : prog A) (st : process)
  : list event :=
  match p with
  | Ret _ => []
  | Do c k =>
      event_of c ::
      match exec_call release c st with
      | Done x st' => trace_with release (k x) st'
      | Undefined => []
      end
  end.

Definition trace {A : Type} (p : prog A) (st : process) : list event :=
  trace_with libc_free p st.

(** Which primitive calls can block or suspend the caller. A write to a
    stream can wait for the device behind it. A write or read of the handler
    slot is a memory access, and a call of the allocator's release primitive
    is counted as non-blocking, as the specification of the shim counts
    it. *)
Definition may_suspend (e : event) : bool :=
  match e with
  | EvPrintf _ _ => true
  | EvStoreAssertHandler _ | EvLoadAssertHandler | EvFree _ => false
  end.

(** ** Luau's assertion hook *)

Module Luau.

(** Modelled from the spec: [Luau/Common.h] is not part of this repository.
    It declares the process-wide handler slot, reached through the reference
    returned by [Luau::assertHandler()]; an assignment through that reference
    is one write of the slot. *)
Definition assertHandler_assign (h : handler_ptr) : prog unit :=
  Do (StoreAssertHandler h) Ret.

Definition assertHandler_read : prog handler_ptr := Do LoadAssertHandler Ret.

End Luau.

(** ** src/zigluau/luau.cpp *)

Definition nl : string := String "010" EmptyString.

(** The format string ["%s(%d): ASSERTION FAILED: %s\n"]. *)
Definition assert_format : string :=
  Eval cbv in ("%s(%d): ASSERTION FAILED: %s" +:+ nl).

(** [line] is a C [int]; nothing below depends on its range, so it is taken
    as an integer. The strings are the targets of the [const char*]
    arguments, which the runtime fills from string literals. *)
Definition assertionHandler (expr file : string) (line : Z) (function : string) : prog Z :=
  printf assert_format [VStr file; VInt line; VStr expr];;
  mret 1%Z.

Definition zig_registerAssertionHandler : prog unit :=
  Luau.assertHandler_assign addr_assertionHandler.

Definition zig_luau_free (ptr : pointer) : prog unit :=
  free ptr.

(** ** The runtime's invariant check *)

(** The code behind a handler address. Functions other than
    [assertionHandler] are supplied by the rest of the process. The null
    address has no code: a check that finds it answers [1] itself. *)
Definition handler_code (others : nat -> string -> string -> Z -> string -> prog Z)
  (h : handler_ptr) (expr file : string) (line : Z) (function : string) : prog Z :=
  match h with
  | nullptr => Ret 1%Z
  | addr_assertionHandler => assertionHandler expr file line function
  | addr_other id => others id expr file line function
  end.

(** Modelled from the spec: the embedded runtime's invariant check is not
    part of this repository. On a failed check it reads the handler slot and
    calls the installed handler with the report; the handler's status is the
    check's status, non-zero meaning that an abort is requested. With no
    handler installed the check requests the abort itself. *)
Definition assertCallHandler (others : nat -> string -> string -> Z -> string -> prog Z)
  (expr file : string) (line : Z) (function : string) : prog Z :=
  h ← Luau.assertHandler_read;
  handler_code others h expr file line function.

(** The diagnostic line for a report, newline included. *)
Definition diagnostic_line (file : string) (line_text : string) (expr : string) : string :=
  file +:+ "(" +:+ line_text +:+ "): ASSERTION FAILED: " +:+ expr +:+ nl.

(** ** The release operation in the words of the specification *)

(** A null handle is a no-op; a handle of a live block returns the block to
    the allocator; any other handle is a contract violation with undefined
    consequences. Nothing but the allocator's bookkeeping changes. *)
Definition releaseBuffer_spec (handle : pointer) (st : process) : outcome unit :=
  if decide (handle = NULL) then Done tt st
  else if decide (is_Some (heap st !! handle))
       then Done tt (set_heap (delete handle (heap st)) st)
       else Undefined.

(** ** Sample process states *)

(** A process that has written nothing, installed no handler and allocated
    nothing; its first write to the standard output will take a buffer of
    1024 bytes at address 4096. *)
Definition process_start : process :=
  {| stdout := ""; assert_slot := nullptr; heap := ∅;
     stdout_buf := BufferOnFirstWrite 4096 1024 |}.

(** A process that has already written to the standard output, in which
    another handler is installed and one block of 32 bytes is live at
    address 16. *)
Definition process_busy : process :=
  {| stdout := "ready" +:+ nl; assert_slot := addr_other 7; heap := {[ 16%N := 32%N ]};
     stdout_buf := BufferInPlace |}.

(** A process that has already written to the standard output and holds three
    live blocks. *)
Definition process_three_blocks : process :=
  {| stdout := "ready" +:+ nl; assert_slot := nullptr;
     heap := {[ 16%N := 32%N; 64%N := 8%N; 96%N := 128%N ]};
     stdout_buf := BufferInPlace |}.

(** ** Sequences of calls into the shim *)

(** One call into the code of [luau.cpp]: the runtime delivering a report to
    [assertionHandler], or the host calling one of the two exported
    functions. *)
Inductive shim_op : Type :=
| OpHandler (expr file : string) (line : Z) (function : string)
| OpRegister
| OpFree (ptr : pointer).

Definition shim_call (op : shim_op) : prog unit :=
  match op with
  | OpHandler expr file line function =>
      assertionHandler expr file line function;; mret tt
  | OpRegister => zig_registerAssertionHandler
  | OpFree ptr => zig_luau_free ptr
  end.

Fixpoint shim_calls (ops : list shim_op) : prog unit :=
  match ops with
  | [] => mret tt
  | op :: rest => shim_call op;; shim_calls rest
  end.

(** What a sequence of calls is expected to leave behind, component by
    component: the diagnostic lines of its reports, in order; the handler
    slot; and the allocator state after its releases. *)
Fixpoint output_of (ops : list shim_op) : string :=
  match ops with
  | [] => ""
  | OpHandler expr file line _ :: rest =>
      diagnostic_line (c_str file) (fmt_d line) (c_str expr) +:+ output_of rest
  | _ :: rest => output_of rest
  end.

Fixpoint slot_after (ops : list shim_op) (slot : handler_ptr) : handler_ptr :=
  match ops with
  | [] => slot
  | OpRegister :: rest => slot_after rest addr_assertionHandler
  | _ :: rest => slot_after rest slot
  end.

Fixpoint heap_after (release : release_prim) (ops : list shim_op) (hp : gmap N N)
  : option (gmap N N) :=
  match ops with
  | [] => Some hp
  | OpFree ptr :: rest =>
      match release ptr hp with
      | Some hp' => heap_after release rest hp'
      | None => None
      end
  | _ :: rest => heap_after release rest hp
  end.

(** Number of occurrences of a character in a text. *)
Fixpoint occurrences (c : ascii) (s : string) : nat :=
  match s with
  | EmptyString => O
  | String c' rest => (if Ascii.eqb c' c then 1 else 0) + occurrences c rest
  end.

(** The range of a 32-bit [int]. *)
Definition INT_MIN : Z := (- 2 ^ 31)%Z.
Definition INT_MAX : Z := (2 ^ 31 - 1)%Z.

(** * Properties *)

(** ** Decimal output *)

Section Decimal.

Local Open Scope N_scope.

Lemma digit_of_char_digit_char (d : N) :
  d < 10 -> digit_of_char (digit_char d) = Some d.
Proof.
  intros Hd. unfold digit_of_char, digit_char.
  rewrite N_ascii_embedding by lia.
  assert (H1 : (48 <=? 48 + d) = true) by (apply N.leb_le; lia).
  assert (H2 : (48 + d <=? 57) = true) by (apply N.leb_le; lia).
  rewrite H1, H2. cbn [andb]. f_equal. lia.
Qed.

Lemma digit_char_not_newline (d : N) :
  d < 10 -> Ascii.eqb (digit_char d) "010" = false.
Proof.
  intros Hd. apply Ascii.eqb_neq. intros E.
  pose proof (digit_of_char_digit_char d Hd) as H.
  rewrite E in H. discriminate H.
Qed.

Lemma mod10_lt (n : N) : n mod 10 < 10.
Proof. apply N.mod_lt. discriminate. Qed.

(** Reading the digits produced for [n] shifts the value read so far by the
    number of digits and adds [n]. *)
Lemma digits_value_dec_loop (fuel : nat) :
  forall (n : N) (acc : string),
    n < 2 ^ N.of_nat fuel ->
    exists k : N, forall a : N,
      digits_value (dec_loop fuel n acc) a = digits_value acc (a * 10 ^ k + n).
Proof.
  induction fuel as [|fuel IH]; intros n acc Hn.
  - exists 0. intros a. cbn in Hn. cbn [dec_loop].
    f_equal. rewrite N.pow_0_r. lia.
  - cbn [dec_loop]. pose proof (N.div_mod n 10 ltac:(discriminate)) as Hdm.
    pose proof (mod10_lt n) as Hm.
    destruct (n / 10 =? 0) eqn:E.
    + apply N.eqb_eq in E. exists 1. intros a.
      cbn [digits_value]. rewrite digit_of_char_digit_char by assumption.
      f_equal. rewrite N.pow_1_r. lia.
    + assert (Hq : n / 10 < 2 ^ N.of_nat fuel).
      { apply N.Div0.div_lt_upper_bound.
        rewrite Nat2N.inj_succ, N.pow_succ_r' in Hn. lia. }
      destruct (IH (n / 10) (String (digit_char (n mod 10)) acc) Hq) as [k Hk].
      exists (k + 1). intros a. rewrite Hk.
      cbn [digits_value]. rewrite digit_of_char_digit_char by assumption.
      f_equal. rewrite N.pow_add_r, N.pow_1_r. lia.
Qed.

Lemma digits_value_dec_of_N (n : N) : digits_value (dec_of_N n) 0 = Some n.
Proof.
  unfold dec_of_N.
  destruct (digits_value_dec_loop (S (N.to_nat (N.size n))) n "") as [k Hk].
  - rewrite Nat2N.inj_succ, N2Nat.id, N.pow_succ_r'.
    pose proof (N.size_gt n). lia.
  - rewrite Hk. cbn [digits_value]. f_equal.
Qed.

(** The first character of the numeral of a non-zero number is a non-zero
    digit. *)
Lemma dec_loop_head (fuel : nat) :
  forall (n : N) (acc : string),
    n <> 0 -> n < 2 ^ N.of_nat (S fuel) ->
    exists d rest, 0 < d < 10 /\ dec_loop (S fuel) n acc = String (digit_char d) rest.
Proof.
  induction fuel as [|fuel IH]; intros n acc Hn0 Hn;
    pose proof (N.div_mod n 10 ltac:(discriminate)) as Hdm;
    pose proof (mod10_lt n) as Hm.
  - exists (n mod 10), acc. cbn in Hn. split.
    + rewrite N.mod_small by lia. lia.
    + cbn [dec_loop]. destruct (n / 10 =? 0); reflexivity.
  - change (dec_loop (S (S fuel)) n acc)
      with (if n / 10 =? 0 then String (digit_char (n mod 10)) acc
            else dec_loop (S fuel) (n / 10) (String (digit_char (n mod 10)) acc)).
    destruct (n / 10 =? 0) eqn:E.
    + apply N.eqb_eq in E. exists (n mod 10), acc. split; [lia | reflexivity].
    + apply N.eqb_neq in E. apply IH; [assumption|].
      apply N.Div0.div_lt_upper_bound.
      rewrite Nat2N.inj_succ, N.pow_succ_r' in Hn. lia.
Qed.

Lemma dec_of_N_head (n : N) :
  n <> 0 ->
  exists d rest, 0 < d < 10 /\ dec_of_N n = String (digit_char d) rest.
Proof.
  intros Hn0. unfold dec_of_N. apply dec_loop_head; [assumption|].
  rewrite Nat2N.inj_succ, N2Nat.id, N.pow_succ_r'.
  pose proof (N.size_gt n). lia.
Qed.

Lemma digit_char_nonzero (d : N) :
  0 < d < 10 ->
  In (digit_char d) ["1"; "2"; "3"; "4"; "5"; "6"; "7"; "8"; "9"]%char.
Proof.
  intros Hd.
  assert (H : d = 1 \/ d = 2 \/ d = 3 \/ d = 4 \/ d = 5 \/ d = 6 \/ d = 7 \/ d = 8 \/ d = 9)
    by lia.
  repeat (destruct H as [->|H]; [cbv; tauto|]). subst d. cbv; tauto.
Qed.

Lemma newlines_dec_loop (fuel : nat) :
  forall (n : N) (acc : string), newlines (dec_loop fuel n acc) = newlines acc.
Proof.
  induction fuel as [|fuel IH]; intros n acc; cbn [dec_loop]; [reflexivity|].
  assert (H : newlines (String (digit_char (n mod 10)) acc) = newlines acc).
  { cbn [newlines]. rewrite digit_char_not_newline by apply mod10_lt. reflexivity. }
  destruct (n / 10 =? 0); [exact H | rewrite IH; exact H].
Qed.

End Decimal.

(** Case analysis on the leading digit of the numeral of a non-zero number. *)
Ltac leading_digit n c rest E :=
  let d := fresh "d" in
  let Hd := fresh "Hd" in
  let Hc := fresh "Hc" in
  destruct (dec_of_N_head n ltac:(discriminate)) as (d & rest & Hd & E);
  pose proof (digit_char_nonzero d Hd) as Hc;
  let Hq := fresh "Hq" in
  remember (digit_char d) as c eqn:Hq; clear Hq Hd;
  cbn [In] in Hc;
  repeat (destruct Hc as [Hc|Hc]; [subst c|]); [..|contradiction].

(** What [%d] prints denotes the value printed. *)
Lemma decimal_value_fmt_d (z : Z) : decimal_value (fmt_d z) = Some z.
Proof.
  destruct z as [|p|p]; unfold fmt_d.
  - reflexivity.
  - pose proof (digits_value_dec_of_N (Z.to_N (Z.pos p))) as Hv.
    leading_digit (Z.to_N (Z.pos p)) c rest E;
      rewrite E in Hv |- *; unfold decimal_value; rewrite Hv; reflexivity.
  - pose proof (digits_value_dec_of_N (N.pos p)) as Hv.
    leading_digit (N.pos p) c rest E;
      rewrite E in Hv |- *; unfold decimal_value; rewrite Hv; reflexivity.
Qed.

Lemma canonical_decimal_fmt_d (z : Z) : canonical_decimal (fmt_d z) = true.
Proof.
  destruct z as [|p|p]; unfold fmt_d.
  - reflexivity.
  - leading_digit (Z.to_N (Z.pos p)) c rest E; rewrite E; reflexivity.
  - leading_digit (N.pos p) c rest E; rewrite E; reflexivity.
Qed.

Lemma newlines_fmt_d (z : Z) : newlines (fmt_d z) = 0%nat.
Proof.
  destruct z; unfold fmt_d, dec_of_N; cbn [newlines Ascii.eqb Bool.eqb];
    rewrite ?newlines_dec_loop; reflexivity.
Qed.

Lemma newlines_app (s t : string) : newlines (s +:+ t) = (newlines s + newlines t)%nat.
Proof.
  induction s as [|c s IH]; simpl; [reflexivity|].
  rewrite IH. lia.
Qed.

(** ** The assertion handler *)

Lemma format_assert_format (file : string) (line : Z) (expr : string) :
  format assert_format [VStr file; VInt line; VStr expr]
  = Some (diagnostic_line (c_str file) (fmt_d line) (c_str expr)).
Proof. reflexivity. Qed.

(** One run of the handler: one [printf], whose text is appended to the
    standard output, then the constant status. *)
Lemma run_with_assertionHandler (release : release_prim)
    (expr file : string) (line : Z) (function : string) (st : process) :
  run_with release (assertionHandler expr file line function) st
  = Done 1%Z (write_stdout (diagnostic_line (c_str file) (fmt_d line) (c_str expr)) st).
Proof.
  unfold assertionHandler, printf. cbn [mbind prog_mbind prog_bind run_with exec_call].
  rewrite format_assert_format. reflexivity.
Qed.

Lemma trace_with_assertionHandler (release : release_prim)
    (expr file : string) (line : Z) (function : string) (st : process) :
  trace_with release (assertionHandler expr file line function) st
  = [EvPrintf assert_format [VStr file; VInt line; VStr expr]].
Proof.
  unfold assertionHandler, printf.
  cbn [mbind prog_mbind prog_bind trace_with exec_call event_of].
  rewrite format_assert_format. reflexivity.
Qed.

Lemma newlines_diagnostic_line (file line_text expr : string) :
  newlines (diagnostic_line file line_text expr)
  = (newlines file + newlines line_text + newlines expr + 1)%nat.
Proof.
  unfold diagnostic_line. rewrite !newlines_app. cbn. lia.
Qed.

(** C1: for every report (expression text, file name, line number, function
    name) the handler appends to the standard output exactly the text
    [<file>(<line>): ASSERTION FAILED: <expression>] followed by one newline,
    where [<line>] is the decimal numeral of the line number, without
    leading zeros; it does so with
    a single [printf] and adds no newline besides the final one.  On
    ("x > 0", "script.cpp", 42, f) the text is
    [script.cpp(42): ASSERTION FAILED: x > 0] and a newline. *)
Theorem assertionHandler_emits_diagnostic_line :
  (forall (expr file : string) (line : Z) (function : string) (st : process),
      exists (status : Z) (st' : process) (digits : string),
        run (assertionHandler expr file line function) st = Done status st'
        /\ decimal_value digits = Some line
        /\ canonical_decimal digits = true
        /\ stdout st'
           = stdout st +:+ c_str file +:+ "(" +:+ digits +:+ "): ASSERTION FAILED: "
               +:+ c_str expr +:+ nl
        /\ newlines (diagnostic_line (c_str file) digits (c_str expr))
           = (newlines (c_str file) + newlines (c_str expr) + 1)%nat
        /\ trace (assertionHandler expr file line function) st
           = [EvPrintf assert_format [VStr file; VInt line; VStr expr]])
  /\ (forall (function : string) (st : process),
         exists (status : Z) (st' : process),
           run (assertionHandler "x > 0" "script.cpp" 42 function) st = Done status st'
           /\ stdout st' = stdout st +:+ "script.cpp(42): ASSERTION FAILED: x > 0" +:+ nl).
Proof.
  split.
  - intros expr file line function st.
    exists 1%Z, (write_stdout (diagnostic_line (c_str file) (fmt_d line) (c_str expr)) st),
      (fmt_d line).
    split; [apply run_with_assertionHandler|].
    split; [apply decimal_value_fmt_d|].
    split; [apply canonical_decimal_fmt_d|].
    split; [reflexivity|].
    split; [|apply trace_with_assertionHandler].
    rewrite newlines_diagnostic_line, newlines_fmt_d. lia.
  - intros function st. eexists _, _.
    split; [apply run_with_assertionHandler|]. reflexivity.
Qed.

(** C9: the handler returns exactly the constant 1 for every report, in
    every process state. *)
Theorem assertionHandler_returns_one
    (expr file : string) (line : Z) (function : string) (st : process) :
  exists st' : process,
    run (assertionHandler expr file line function) st = Done 1%Z st'.
Proof. eexists. apply run_with_assertionHandler. Qed.

(** The stream's buffer is the only block a write can add, and a write
    takes nothing away. *)
Lemma heap_with_buffer_subseteq (buf : stream_buffer) (hp : gmap N N) :
  hp ⊆ heap_with_buffer buf hp.
Proof.
  destruct buf as [base size|]; cbn [heap_with_buffer]; [|reflexivity].
  destruct (base =? 0)%N; [reflexivity|].
  destruct (hp !! base) eqn:E; [reflexivity|].
  apply insert_subseteq. exact E.
Qed.

Lemma heap_with_buffer_size (buf : stream_buffer) (hp : gmap N N) :
  size (heap_with_buffer buf hp) <= S (size hp).
Proof.
  destruct buf as [base size|]; cbn [heap_with_buffer]; [|lia].
  destruct (base =? 0)%N; [lia|].
  destruct (hp !! base) eqn:E; [lia|].
  rewrite map_size_insert_None by exact E. lia.
Qed.

(** C6 (counterexample): a handler invocation can change the allocator
    state. In a process that has not written to the standard output yet, the
    handler's [printf] is the first write, and the stream takes its buffer
    from the host allocator. *)
Lemma assertionHandler_first_write_allocates :
  (exists st' : process,
      run (assertionHandler "x > 0" "script.cpp" 42 "f") process_start = Done 1%Z st'
      /\ heap process_start !! 4096%N = None
      /\ heap st' !! 4096%N = Some 1024%N)
  /\ ~ (forall (expr file : string) (line : Z) (function : string) (st : process),
          exists (status : Z) (st' : process),
            run (assertionHandler expr file line function) st = Done status st'
            /\ assert_slot st' = assert_slot st
            /\ heap st' = heap st).
Proof.
  assert (Hrun : run (assertionHandler "x > 0" "script.cpp" 42 "f") process_start
                 = Done 1%Z (write_stdout
                              (diagnostic_line (c_str "script.cpp") (fmt_d 42) (c_str "x > 0"))
                              process_start))
    by apply run_with_assertionHandler.
  split.
  - eexists. split; [exact Hrun|]. split; reflexivity.
  - intros Hframe.
    destruct (Hframe "x > 0" "script.cpp" 42%Z "f" process_start)
      as (status & st' & Hst' & _ & Hheap).
    rewrite Hrun in Hst'. injection Hst' as _ <-.
    apply (f_equal (fun hp : gmap N N => hp !! 4096%N)) in Hheap.
    vm_compute in Hheap. discriminate Hheap.
Qed.

(** C6 (amended): a handler invocation performs one write to the standard
    output and nothing else. The only primitive call is the [printf]; the
    diagnostic line is appended to the standard output; the handler slot is
    as before; every block that was live is still live, with its size. The
    allocator state is as before whenever the stream already has its buffer;
    otherwise it gains at most one block, the buffer the stream takes at its
    first write, and the stream has its buffer afterwards. *)
Theorem assertionHandler_frame
    (expr file : string) (line : Z) (function : string) (st : process) :
  exists (status : Z) (st' : process),
    run (assertionHandler expr file line function) st = Done status st'
    /\ st' = write_stdout (diagnostic_line (c_str file) (fmt_d line) (c_str expr)) st
    /\ stdout st' = stdout st +:+ diagnostic_line (c_str file) (fmt_d line) (c_str expr)
    /\ assert_slot st' = assert_slot st
    /\ heap st ⊆ heap st'
    /\ size (heap st') <= S (size (heap st))
    /\ stdout_buf st' = BufferInPlace
    /\ (stdout_buf st = BufferInPlace -> heap st' = heap st)
    /\ trace (assertionHandler expr file line function) st
       = [EvPrintf assert_format [VStr file; VInt line; VStr expr]].
Proof.
  eexists _, _. split; [apply run_with_assertionHandler|].
  split; [reflexivity|]. split; [reflexivity|]. split; [reflexivity|].
  cbn [write_stdout heap stdout_buf].
  split; [apply heap_with_buffer_subseteq|].
  split; [apply heap_with_buffer_size|].
  split; [reflexivity|].
  split; [|apply trace_with_assertionHandler].
  intros Hbuf. rewrite Hbuf. reflexivity.
Qed.

Lemma assertionHandler_frame_witness :
  stdout_buf process_busy = BufferInPlace
  /\ exists st' : process,
      run (assertionHandler "x > 0" "script.cpp" 42 "f") process_busy = Done 1%Z st'
      /\ heap st' = heap process_busy.
Proof.
  assert (H : stdout_buf process_busy = BufferInPlace) by reflexivity.
  split; [exact H|].
  destruct (assertionHandler_frame "x > 0" "script.cpp" 42%Z "f" process_busy)
    as (status & st' & Hrun & _ & _ & _ & _ & _ & _ & Hheap & _).
  exists st'. split; [|exact (Hheap H)].
  rewrite Hrun. f_equal.
  pose proof (run_with_assertionHandler libc_free "x > 0" "script.cpp" 42%Z "f" process_busy)
    as Hone.
  unfold run in Hrun. rewrite Hone in Hrun. injection Hrun as <- _. reflexivity.
Defined.

(** C10: the function-name argument is never used: two invocations that
    differ only in it are the same program, so they write the same text,
    return the same status and make the same primitive calls. *)
Theorem assertionHandler_ignores_function
    (expr file : string) (line : Z) (function1 function2 : string) (st : process) :
  assertionHandler expr file line function1 = assertionHandler expr file line function2
  /\ run (assertionHandler expr file line function1) st
     = run (assertionHandler expr file line function2) st
  /\ trace (assertionHandler expr file line function1) st
     = trace (assertionHandler expr file line function2) st.
Proof. repeat split. Qed.

(** ** Registration *)

Lemma run_with_register (release : release_prim) (st : process) :
  run_with release zig_registerAssertionHandler st
  = Done tt (set_assert_slot addr_assertionHandler st).
Proof. reflexivity. Qed.

Lemma run_with_bind (release : release_prim) {A B : Type}
    (p : prog A) (f : A -> prog B) (st : process) :
  run_with release (p ≫= f) st
  = match run_with release p st with
    | Done a st' => run_with release (f a) st'
    | Undefined => Undefined
    end.
Proof.
  revert st. induction p as [a|X c k IH]; intros st.
  - reflexivity.
  - change (run_with release (Do c k ≫= f) st)
      with (match exec_call release c st with
            | Done x st' => run_with release (k x ≫= f) st'
            | Undefined => Undefined
            end).
    cbn [run_with]. destruct (exec_call release c st) as [x st'|]; [apply IH | reflexivity].
Qed.

(** With the shim's handler installed, a failed invariant check runs it. *)
Lemma run_with_assertCallHandler_installed (release : release_prim)
    (others : nat -> string -> string -> Z -> string -> prog Z)
    (expr file : string) (line : Z) (function : string) (st : process) :
  assert_slot st = addr_assertionHandler ->
  run_with release (assertCallHandler others expr file line function) st
  = Done 1%Z (write_stdout (diagnostic_line (c_str file) (fmt_d line) (c_str expr)) st).
Proof.
  intros Hslot. unfold assertCallHandler. rewrite run_with_bind.
  cbn [Luau.assertHandler_read run_with exec_call]. rewrite Hslot.
  apply run_with_assertionHandler.
Qed.

(** C5: registration cannot fail. From every process state, whatever handler
    was installed before, it returns normally after its single write of the
    handler slot, the slot then holds the address of [assertionHandler], and
    nothing else has changed. *)
Theorem zig_registerAssertionHandler_installs (release : release_prim) (st : process) :
  exists st' : process,
    run_with release zig_registerAssertionHandler st = Done tt st'
    /\ assert_slot st' = addr_assertionHandler
    /\ stdout st' = stdout st
    /\ heap st' = heap st
    /\ trace_with release zig_registerAssertionHandler st
       = [EvStoreAssertHandler addr_assertionHandler].
Proof. eexists. split; [apply run_with_register|]. repeat split. Qed.

(** C2: the handler that registration installs returns a non-zero status for
    every report in every process state, so a failed invariant check always
    reports that an abort is requested. *)
Theorem registered_handler_requests_abort
    (others : nat -> string -> string -> Z -> string -> prog Z)
    (expr file : string) (line : Z) (function : string) (st0 st : process) :
  exists st1 : process,
    run zig_registerAssertionHandler st0 = Done tt st1
    /\ (exists (status : Z) (st' : process),
          run (handler_code others (assert_slot st1) expr file line function) st
          = Done status st'
          /\ status <> 0%Z)
    /\ (exists (status : Z) (st' : process),
          run (assertCallHandler others expr file line function) st1 = Done status st'
          /\ status <> 0%Z).
Proof.
  eexists. split; [apply run_with_register|]. split.
  - exists 1%Z. eexists. split; [apply run_with_assertionHandler | discriminate].
  - exists 1%Z. eexists.
    split; [apply run_with_assertCallHandler_installed; reflexivity | discriminate].
Qed.

(** C3: registration is idempotent. Registering twice leaves the process in
    the same state as registering once, and after a double registration each
    failed invariant check appends exactly one diagnostic line to the
    standard output. *)
Theorem zig_registerAssertionHandler_idempotent
    (others : nat -> string -> string -> Z -> string -> prog Z) (st : process) :
  run (zig_registerAssertionHandler;; zig_registerAssertionHandler) st
  = run zig_registerAssertionHandler st
  /\ exists st2 : process,
      run (zig_registerAssertionHandler;; zig_registerAssertionHandler) st = Done tt st2
      /\ forall (expr file : string) (line : Z) (function : string),
          run (assertCallHandler others expr file line function) st2
          = Done 1%Z
              (write_stdout (diagnostic_line (c_str file) (fmt_d line) (c_str expr)) st2)
          /\ run (assertCallHandler others expr file line function;;
                  assertCallHandler others expr file line function) st2
             = Done 1%Z
                 (write_stdout (diagnostic_line (c_str file) (fmt_d line) (c_str expr))
                    (write_stdout (diagnostic_line (c_str file) (fmt_d line) (c_str expr))
                       st2)).
Proof.
  split; [reflexivity|].
  eexists. split; [reflexivity|].
  intros expr file line function. split.
  - apply run_with_assertCallHandler_installed. reflexivity.
  - unfold run. rewrite run_with_bind.
    rewrite run_with_assertCallHandler_installed by reflexivity.
    apply run_with_assertCallHandler_installed. reflexivity.
Qed.

(** ** Releasing a buffer *)

Lemma set_heap_same (st : process) : set_heap (heap st) st = st.
Proof. destruct st; reflexivity. Qed.

(** The shim's release is the host primitive applied to the same handle. *)
Lemma run_with_zig_luau_free (release : release_prim) (ptr : pointer) (st : process) :
  run_with release (zig_luau_free ptr) st
  = match release ptr (heap st) with
    | Some hp => Done tt (set_heap hp st)
    | None => Undefined
    end.
Proof.
  unfold zig_luau_free, free. cbn [run_with exec_call].
  destruct (release ptr (heap st)); reflexivity.
Qed.

Lemma libc_free_NULL (hp : gmap N N) : libc_free NULL hp = Some hp.
Proof. reflexivity. Qed.

Lemma libc_free_live (p : pointer) (hp : gmap N N) :
  p <> NULL -> is_Some (hp !! p) -> libc_free p hp = Some (delete p hp).
Proof.
  intros Hp [sz Hsz]. unfold libc_free.
  destruct (N.eqb_spec p NULL) as [E|_]; [contradiction|].
  rewrite Hsz. reflexivity.
Qed.

Lemma libc_free_dangling (p : pointer) (hp : gmap N N) :
  p <> NULL -> hp !! p = None -> libc_free p hp = None.
Proof.
  intros Hp Hnone. unfold libc_free.
  destruct (N.eqb_spec p NULL) as [E|_]; [contradiction|].
  rewrite Hnone. reflexivity.
Qed.

Lemma run_zig_luau_free_spec (handle : pointer) (st : process) :
  run (zig_luau_free handle) st = releaseBuffer_spec handle st.
Proof.
  unfold run, releaseBuffer_spec. rewrite run_with_zig_luau_free.
  destruct (decide (handle = NULL)) as [->|Hp].
  - rewrite libc_free_NULL, set_heap_same. reflexivity.
  - destruct (decide (is_Some (heap st !! handle))) as [Hlive|Hdead].
    + rewrite libc_free_live by assumption. reflexivity.
    + rewrite libc_free_dangling; [reflexivity | assumption |].
      destruct (heap st !! handle) eqn:E; [|reflexivity].
      contradiction Hdead. eexists; reflexivity.
Qed.

Lemma trace_with_register (release : release_prim) (st : process) :
  trace_with release zig_registerAssertionHandler st
  = [EvStoreAssertHandler addr_assertionHandler].
Proof. reflexivity. Qed.

Lemma trace_with_zig_luau_free (release : release_prim) (ptr : pointer) (st : process) :
  trace_with release (zig_luau_free ptr) st = [EvFree ptr].
Proof.
  unfold zig_luau_free, free. cbn [trace_with event_of exec_call].
  destruct (release ptr (heap st)); reflexivity.
Qed.

(** C4: releasing the null handle is a no-op. The call returns normally and
    the whole process state, standard output and allocator state included, is
    as before. *)
Theorem zig_luau_free_null_noop (st : process) :
  exists st' : process,
    run (zig_luau_free NULL) st = Done tt st'
    /\ st' = st
    /\ stdout st' = stdout st
    /\ heap st' = heap st
    /\ trace (zig_luau_free NULL) st = [EvFree NULL].
Proof.
  exists st. split; [|repeat split].
  unfold run. rewrite run_with_zig_luau_free, libc_free_NULL, set_heap_same.
  reflexivity.
Qed.

(** C7: for every handle, [zig_luau_free] is the host allocator's release
    primitive applied to that handle and nothing more. Whatever the
    primitive, the shim's outcome is the primitive's outcome on the
    allocator state, the rest of the process is untouched and the one
    primitive call made is that release. On the C library's [free] this is
    the release operation as the specification words it: a no-op on null, a
    release of a live block, undefined on any other handle; in particular a
    second release of the same non-null handle is undefined, not ignored. *)
Theorem zig_luau_free_is_host_free :
  (forall (release : release_prim) (ptr : pointer) (st : process),
      run_with release (zig_luau_free ptr) st
      = match release ptr (heap st) with
        | Some hp => Done tt (set_heap hp st)
        | None => Undefined
        end
      /\ run_with release (zig_luau_free ptr) st = run_with release (free ptr) st
      /\ trace_with release (zig_luau_free ptr) st = [EvFree ptr])
  /\ (forall (handle : pointer) (st : process),
         run (zig_luau_free handle) st = releaseBuffer_spec handle st)
  /\ (forall (handle : pointer) (st : process),
         run (zig_luau_free handle;; zig_luau_free handle) st
         = if decide (handle = NULL) then Done tt st else Undefined).
Proof.
  split; [|split].
  - intros release ptr st. split; [apply run_with_zig_luau_free|].
    split; [reflexivity|]. apply trace_with_zig_luau_free.
  - apply run_zig_luau_free_spec.
  - intros handle st. unfold run. rewrite run_with_bind.
    fold (run (zig_luau_free handle) st). rewrite run_zig_luau_free_spec.
    unfold releaseBuffer_spec.
    destruct (decide (handle = NULL)) as [->|Hp].
    + fold (run (zig_luau_free NULL) st). rewrite run_zig_luau_free_spec.
      reflexivity.
    + destruct (decide (is_Some (heap st !! handle))) as [Hlive|Hdead]; [|reflexivity].
      rewrite run_with_zig_luau_free. cbn [heap set_heap].
      rewrite libc_free_dangling; [reflexivity | assumption |].
      apply lookup_delete_eq.
Qed.

(** ** Completion *)


(** The classification of calls is not idle: the handler, unlike the two
    exported operations, does make a call that can suspend. *)
Lemma assertionHandler_may_suspend
    (expr file : string) (line : Z) (function : string) (st : process) :
  existsb may_suspend (trace (assertionHandler expr file line function) st) = true.
Proof. unfold trace. rewrite trace_with_assertionHandler. reflexivity. Qed.



(** ** Sequences of calls *)

Lemma append_assoc (s t u : string) : (s +:+ t) +:+ u = s +:+ (t +:+ u).
Proof.
  induction s as [|c s IH]; [reflexivity|].
  change (String c ((s +:+ t) +:+ u) = String c (s +:+ t +:+ u)).
  rewrite IH. reflexivity.
Qed.

Lemma append_empty_r (s : string) : s +:+ "" = s.
Proof.
  induction s as [|c s IH]; [reflexivity|].
  change (String c (s +:+ "") = String c s). rewrite IH. reflexivity.
Qed.

(** A run of any sequence of calls into the shim, under any host allocator,
    in a process whose standard output stream already has its buffer: it
    completes exactly when its releases do, and then the output, the handler
    slot and the allocator state are each determined by the calls of one
    kind. *)
Lemma run_with_shim_calls (release : release_prim) (ops : list shim_op) :
  forall st : process,
    stdout_buf st = BufferInPlace ->
    run_with release (shim_calls ops) st
    = match heap_after release ops (heap st) with
      | Some hp =>
          Done tt {| stdout := stdout st +:+ output_of ops;
                     assert_slot := slot_after ops (assert_slot st);
                     heap := hp;
                     stdout_buf := BufferInPlace |}
      | None => Undefined
      end.
Proof.
  induction ops as [|op rest IH]; intros st Hbuf.
  - destruct st as [out slot hp buf]. cbn in Hbuf. subst buf. cbn.
    rewrite append_empty_r. reflexivity.
  - cbn [shim_calls]. rewrite run_with_bind.
    destruct op as [expr file line function| |ptr]; cbn [shim_call].
    + rewrite run_with_bind, run_with_assertionHandler.
      cbn [run_with mret prog_ret]. rewrite IH by reflexivity.
      cbn [heap_after output_of slot_after write_stdout heap stdout assert_slot].
      rewrite Hbuf. cbn [heap_with_buffer]. rewrite append_assoc. reflexivity.
    + rewrite run_with_register, IH by exact Hbuf. reflexivity.
    + rewrite run_with_zig_luau_free. cbn [heap_after].
      destruct (release ptr (heap st)) as [hp|]; [rewrite IH by exact Hbuf|]; reflexivity.
Qed.



(** ** Order of releases *)

Lemma libc_free_absent (p q : pointer) (hp hp' : gmap N N) :
  hp !! q = None -> libc_free p hp = Some hp' -> hp' !! q = None.
Proof.
  intros Hq. unfold libc_free. destruct (p =? NULL)%N.
  - intros [= <-]. exact Hq.
  - destruct (hp !! p) as [sz|] eqn:E; [|discriminate].
    intros [= <-]. destruct (decide (p = q)) as [->|Hne].
    + apply lookup_delete_eq.
    + rewrite lookup_delete_ne by assumption. exact Hq.
Qed.

(** Two releases commute, whatever the handles. *)
Lemma libc_free_swap (p q : pointer) (hp : gmap N N) :
  match libc_free p hp with Some hp' => libc_free q hp' | None => None end
  = match libc_free q hp with Some hp' => libc_free p hp' | None => None end.
Proof.
  unfold libc_free.
  destruct (N.eqb_spec p NULL) as [Hp|Hp]; destruct (N.eqb_spec q NULL) as [Hq|Hq].
  - reflexivity.
  - destruct (hp !! q); [|reflexivity]. destruct (N.eqb_spec p NULL); [reflexivity|contradiction].
  - destruct (hp !! p); [|reflexivity]. destruct (N.eqb_spec q NULL); [reflexivity|contradiction].
  - destruct (decide (p = q)) as [->|Hne]; [reflexivity|].
    destruct (hp !! p) as [sp|] eqn:Ep; destruct (hp !! q) as [sq|] eqn:Eq.
    + destruct (N.eqb_spec p NULL); [contradiction|].
      destruct (N.eqb_spec q NULL); [contradiction|].
      rewrite lookup_delete_ne by assumption.
      rewrite lookup_delete_ne by (intros E; apply Hne; symmetry; exact E).
      rewrite Ep, Eq, delete_delete. reflexivity.
    + destruct (N.eqb_spec q NULL); [contradiction|].
      rewrite lookup_delete_ne by assumption. rewrite Eq. reflexivity.
    + destruct (N.eqb_spec p NULL); [contradiction|].
      rewrite lookup_delete_ne by (intros E; apply Hne; symmetry; exact E).
      rewrite Ep. reflexivity.
    + reflexivity.
Qed.

Lemma heap_after_frees_perm (ps qs : list pointer) :
  Permutation ps qs ->
  forall hp : gmap N N,
    heap_after libc_free (map OpFree ps) hp = heap_after libc_free (map OpFree qs) hp.
Proof.
  intros Hperm. induction Hperm as [|p ps qs _ IH|p q ps|ps qs rs _ IH1 _ IH2]; intros hp.
  - reflexivity.
  - cbn [map heap_after]. destruct (libc_free p hp); [apply IH | reflexivity].
  - cbn [map heap_after].
    pose proof (libc_free_swap p q hp) as Hswap.
    destruct (libc_free p hp) as [h1|]; destruct (libc_free q hp) as [h2|].
    + destruct (libc_free q h1) as [h12|]; destruct (libc_free p h2) as [h21|];
        try discriminate Hswap; [|reflexivity].
      injection Hswap as ->. reflexivity.
    + rewrite Hswap. reflexivity.
    + rewrite <- Hswap. reflexivity.
    + reflexivity.
  - rewrite IH1. apply IH2.
Qed.

(** A run of releases only: the allocator state is threaded through the
    releases and nothing else changes. *)
Lemma run_with_frees (release : release_prim) (ps : list pointer) :
  forall st : process,
    run_with release (shim_calls (map OpFree ps)) st
    = match heap_after release (map OpFree ps) (heap st) with
      | Some hp => Done tt (set_heap hp st)
      | None => Undefined
      end.
Proof.
  induction ps as [|p ps IH]; intros st.
  - cbn. rewrite set_heap_same. reflexivity.
  - cbn [map shim_calls shim_call heap_after].
    rewrite run_with_bind, run_with_zig_luau_free.
    destruct (release p (heap st)) as [hp|]; [|reflexivity].
    rewrite IH. cbn [set_heap heap].
    destruct (heap_after release (map OpFree ps) hp); reflexivity.
Qed.

(** X2: which blocks are live after a series of releases does not depend on
    the order of the releases. Releasing the same handles in another order is
    undefined in both orders or completes in both, and then leaves the same
    blocks live, the standard output and the handler slot being untouched.
    (The state of the allocator is its live blocks here; in which order it
    reuses released memory is not part of it.) *)
Theorem zig_luau_free_order_irrelevant (ps qs : list pointer) (st : process) :
  Permutation ps qs ->
  (run (shim_calls (map OpFree ps)) st = Undefined
   /\ run (shim_calls (map OpFree qs)) st = Undefined)
  \/ (exists live : gmap N N,
         run (shim_calls (map OpFree ps)) st = Done tt (set_heap live st)
         /\ run (shim_calls (map OpFree qs)) st = Done tt (set_heap live st)
         /\ live ⊆ heap st).
Proof.
  intros Hperm. unfold run. rewrite !run_with_frees.
  rewrite <- (heap_after_frees_perm ps qs Hperm).
  destruct (heap_after libc_free (map OpFree ps) (heap st)) as [live|] eqn:E.
  - right. exists live. split; [reflexivity|]. split; [reflexivity|].
    clear Hperm. revert E. generalize (heap st) as hp.
    induction ps as [|p ps IH]; intros hp E.
    + injection E as <-. reflexivity.
    + cbn [map heap_after] in E.
      destruct (libc_free p hp) as [h1|] eqn:E1; [|discriminate].
      transitivity h1; [exact (IH h1 E)|].
      unfold libc_free in E1. destruct (p =? NULL)%N.
      * injection E1 as <-. reflexivity.
      * destruct (hp !! p); [|discriminate]. injection E1 as <-.
        apply delete_subseteq.
  - left. split; reflexivity.
Qed.

Lemma zig_luau_free_order_irrelevant_witness :
  Permutation [16%N; 96%N] [96%N; 16%N]
  /\ exists live : gmap N N,
      run (shim_calls (map OpFree [16%N; 96%N])) process_three_blocks
      = Done tt (set_heap live process_three_blocks)
      /\ run (shim_calls (map OpFree [96%N; 16%N])) process_three_blocks
         = Done tt (set_heap live process_three_blocks)
      /\ live !! 64%N = Some 8%N.
Proof.
  assert (H : Permutation [16%N; 96%N] [96%N; 16%N]) by apply perm_swap.
  split; [exact H|].
  destruct (zig_luau_free_order_irrelevant [16%N; 96%N] [96%N; 16%N]
              process_three_blocks H) as [[Hundef _]|(live & H1 & H2 & _)].
  - vm_compute in Hundef. discriminate Hundef.
  - exists live. split; [exact H1|]. split; [exact H2|].
    vm_compute in H1. injection H1 as <-. vm_compute. reflexivity.
Defined.

(** ** Releasing a live block *)

(** X3: releasing a non-null handle of a live block completes; afterwards
    that block is no longer live, every other block is as before, the number
    of live blocks has dropped by one, and neither the standard output nor
    the handler slot has changed. *)
Theorem zig_luau_free_live_block (ptr : pointer) (st : process) :
  ptr <> NULL ->
  is_Some (heap st !! ptr) ->
  exists st' : process,
    run (zig_luau_free ptr) st = Done tt st'
    /\ heap st' !! ptr = None
    /\ (forall q : pointer, q <> ptr -> heap st' !! q = heap st !! q)
    /\ size (heap st) = S (size (heap st'))
    /\ stdout st' = stdout st
    /\ assert_slot st' = assert_slot st.
Proof.
  intros Hp Hlive. exists (set_heap (delete ptr (heap st)) st).
  split.
  { unfold run. rewrite run_with_zig_luau_free, libc_free_live by assumption.
    reflexivity. }
  cbn [set_heap heap stdout assert_slot].
  split; [apply lookup_delete_eq|].
  split.
  { intros q Hq. apply lookup_delete_ne. intros E. apply Hq. symmetry. exact E. }
  split; [|split; reflexivity].
  rewrite map_size_delete_Some by assumption.
  destruct Hlive as [sz Hsz].
  assert (Hne : size (heap st) <> 0%nat).
  { intros Hz. apply map_size_empty_inv in Hz. rewrite Hz, lookup_empty in Hsz.
    discriminate Hsz. }
  lia.
Qed.

Lemma zig_luau_free_live_block_witness :
  exists st' : process,
    run (zig_luau_free 16%N) process_busy = Done tt st'
    /\ heap st' !! 16%N = None
    /\ (forall q : pointer, q <> 16%N -> heap st' !! q = heap process_busy !! q)
    /\ size (heap process_busy) = S (size (heap st'))
    /\ stdout st' = stdout process_busy
    /\ assert_slot st' = assert_slot process_busy.
Proof.
  apply (zig_luau_free_live_block 16%N process_busy).
  - discriminate.
  - exists 32%N. vm_compute. reflexivity.
Defined.

(** ** A handle released twice *)

Lemma heap_after_absent (ops : list shim_op) (q : pointer) :
  forall hp hp' : gmap N N,
    hp !! q = None -> heap_after libc_free ops hp = Some hp' -> hp' !! q = None.
Proof.
  induction ops as [|op rest IH]; intros hp hp' Hq.
  - intros [= <-]. exact Hq.
  - destruct op as [expr file line function| |p]; cbn [heap_after]; try (apply IH; exact Hq).
    destruct (libc_free p hp) as [h1|] eqn:E; [|discriminate].
    apply IH. exact (libc_free_absent p q hp h1 Hq E).
Qed.

Lemma heap_after_app (release : release_prim) (a b : list shim_op) :
  forall hp : gmap N N,
    heap_after release (a ++ b) hp
    = match heap_after release a hp with
      | Some hp' => heap_after release b hp'
      | None => None
      end.
Proof.
  induction a as [|op rest IH]; intros hp; [reflexivity|].
  destruct op as [expr file line function| |p]; cbn [app heap_after]; try apply IH.
  destruct (release p hp); [apply IH | reflexivity].
Qed.



(** ** What the diagnostic line tells *)

Lemma length_append (s t : string) :
  String.length (s +:+ t) = (String.length s + String.length t)%nat.
Proof.
  induction s as [|c s IH]; [reflexivity|].
  change (S (String.length (s +:+ t)) = S (String.length s + String.length t)).
  rewrite IH. reflexivity.
Qed.

Lemma append_inv_head (s t u : string) : s +:+ t = s +:+ u -> t = u.
Proof.
  induction s as [|c s IH]; intros H; [exact H|].
  apply IH. change (String c (s +:+ t) = String c (s +:+ u)) in H.
  injection H as H. exact H.
Qed.

Lemma append_inv_tail (s1 : string) :
  forall s2 t : string, s1 +:+ t = s2 +:+ t -> s1 = s2.
Proof.
  induction s1 as [|c1 s1 IH]; intros [|c2 s2] t H.
  - reflexivity.
  - apply (f_equal String.length) in H.
    change (String.length t = S (String.length (s2 +:+ t))) in H.
    rewrite length_append in H. lia.
  - apply (f_equal String.length) in H.
    change (S (String.length (s1 +:+ t)) = String.length t) in H.
    rewrite length_append in H. lia.
  - change (String c1 (s1 +:+ t) = String c2 (s2 +:+ t)) in H.
    injection H as -> H. f_equal. exact (IH s2 t H).
Qed.

Lemma fmt_d_inj (z1 z2 : Z) : fmt_d z1 = fmt_d z2 -> z1 = z2.
Proof.
  intros H. apply (f_equal decimal_value) in H.
  rewrite !decimal_value_fmt_d in H. injection H as H. exact H.
Qed.

(** X5: the line number can be read off the diagnostic. Two reports with the
    same file and expression but different line numbers never produce the
    same output. *)
Theorem assertionHandler_line_distinguishes
    (expr file : string) (line1 line2 : Z) (function1 function2 : string) (st : process) :
  line1 <> line2 ->
  run (assertionHandler expr file line1 function1) st
  <> run (assertionHandler expr file line2 function2) st.
Proof.
  intros Hne H. apply Hne. unfold run in H.
  rewrite !run_with_assertionHandler in H. injection H as H.
  apply append_inv_head in H. unfold diagnostic_line in H.
  apply append_inv_head in H. apply append_inv_head in H.
  apply append_inv_tail in H. apply fmt_d_inj. exact H.
Qed.

Lemma assertionHandler_line_distinguishes_witness :
  run (assertionHandler "x > 0" "script.cpp" 42 "f") process_start
  <> run (assertionHandler "x > 0" "script.cpp" 43 "g") process_start.
Proof.
  apply (assertionHandler_line_distinguishes "x > 0" "script.cpp" 42 43 "f" "g"
           process_start).
  discriminate.
Defined.

(** ** Characters of the output *)

Lemma occurrences_app (c : ascii) (s t : string) :
  occurrences c (s +:+ t) = (occurrences c s + occurrences c t)%nat.
Proof.
  induction s as [|c' s IH]; [reflexivity|].
  change ((if Ascii.eqb c' c then 1 else 0) + occurrences c (s +:+ t)
          = (if Ascii.eqb c' c then 1 else 0) + occurrences c s + occurrences c t)%nat.
  rewrite IH. lia.
Qed.

Lemma occurrences_zero_c_str (s : string) : occurrences zero (c_str s) = 0%nat.
Proof.
  induction s as [|c s IH]; [reflexivity|].
  cbn [c_str]. destruct (Ascii.eqb c zero) eqn:E; [reflexivity|].
  cbn [occurrences]. rewrite E, IH. reflexivity.
Qed.

Lemma digit_char_not_zero (d : N) : (d < 10)%N -> Ascii.eqb (digit_char d) zero = false.
Proof.
  intros Hd. apply Ascii.eqb_neq. intros E.
  pose proof (digit_of_char_digit_char d Hd) as H.
  rewrite E in H. discriminate H.
Qed.

Lemma occurrences_zero_dec_loop (fuel : nat) :
  forall (n : N) (acc : string),
    occurrences zero (dec_loop fuel n acc) = occurrences zero acc.
Proof.
  induction fuel as [|fuel IH]; intros n acc; cbn [dec_loop]; [reflexivity|].
  assert (H : occurrences zero (String (digit_char (n mod 10)) acc) = occurrences zero acc).
  { cbn [occurrences]. rewrite digit_char_not_zero by apply mod10_lt. reflexivity. }
  destruct (n / 10 =? 0)%N; [exact H | rewrite IH; exact H].
Qed.

Lemma occurrences_zero_fmt_d (z : Z) : occurrences zero (fmt_d z) = 0%nat.
Proof.
  destruct z; unfold fmt_d, dec_of_N; cbn [occurrences Ascii.eqb Bool.eqb zero];
    rewrite ?occurrences_zero_dec_loop; reflexivity.
Qed.

(** X6: the handler never writes a NUL character. Whatever the buffers
    behind its string arguments hold, the text it appends to the standard
    output contains no NUL. *)
Theorem assertionHandler_output_no_nul
    (expr file : string) (line : Z) (function : string) (st : process) :
  exists out : string,
    run (assertionHandler expr file line function) st = Done 1%Z (write_stdout out st)
    /\ occurrences zero out = 0%nat.
Proof.
  eexists. split; [apply run_with_assertionHandler|].
  unfold diagnostic_line. rewrite !occurrences_app.
  rewrite !occurrences_zero_c_str, occurrences_zero_fmt_d. reflexivity.
Qed.

(** ** Length of the output *)

Lemma length_dec_loop (fuel : nat) :
  forall (k : nat) (n : N) (acc : string),
    (n < 10 ^ N.of_nat (S k))%N ->
    (String.length (dec_loop fuel n acc) <= String.length acc + S k)%nat.
Proof.
  induction fuel as [|fuel IH]; intros k n acc Hn; cbn [dec_loop]; [lia|].
  destruct (n / 10 =? 0)%N eqn:E.
  - cbn [String.length]. lia.
  - apply N.eqb_neq in E.
    destruct k as [|k].
    + exfalso. apply E. apply N.div_small. cbn in Hn. exact Hn.
    + assert (Hq : (n / 10 < 10 ^ N.of_nat (S k))%N).
      { apply N.Div0.div_lt_upper_bound.
        rewrite (Nat2N.inj_succ (S k)), N.pow_succ_r' in Hn. exact Hn. }
      pose proof (IH k (n / 10)%N (String (digit_char (n mod 10)) acc) Hq) as H.
      cbn [String.length] in H. lia.
Qed.

Lemma length_fmt_d_int (z : Z) :
  (INT_MIN <= z <= INT_MAX)%Z -> (String.length (fmt_d z) <= 11)%nat.
Proof.
  unfold INT_MIN, INT_MAX. intros Hz.
  destruct z as [|p|p]; unfold fmt_d, dec_of_N.
  - change (1 <= 11)%nat. lia.
  - pose proof (length_dec_loop (S (N.to_nat (N.size (Z.to_N (Z.pos p))))) 9
                  (Z.to_N (Z.pos p)) "") as H.
    cbn [String.length] in H. cbn [Z.to_N] in *.
    assert (Hb : (N.pos p < 10 ^ N.of_nat 10)%N) by (cbn; lia).
    specialize (H Hb). lia.
  - pose proof (length_dec_loop (S (N.to_nat (N.size (N.pos p)))) 9 (N.pos p) "") as H.
    cbn [String.length] in *.
    assert (Hb : (N.pos p < 10 ^ N.of_nat 10)%N) by (cbn; lia).
    specialize (H Hb). lia.
Qed.

(** X7: for a line number in the range of a 32-bit [int], the handler writes
    at most 34 characters besides the file name and the expression text:
    the 23 fixed characters of the format and at most 11 for the number. *)
Theorem assertionHandler_output_length
    (expr file : string) (line : Z) (function : string) (st : process) :
  (INT_MIN <= line <= INT_MAX)%Z ->
  exists out : string,
    run (assertionHandler expr file line function) st = Done 1%Z (write_stdout out st)
    /\ (String.length (c_str file) + String.length (c_str expr) + 24
        <= String.length out
        <= String.length (c_str file) + String.length (c_str expr) + 34)%nat.
Proof.
  intros Hline. eexists. split; [apply run_with_assertionHandler|].
  pose proof (length_fmt_d_int line Hline) as Hd.
  assert (Hd1 : (1 <= String.length (fmt_d line))%nat).
  { pose proof (canonical_decimal_fmt_d line) as Hc.
    destruct (fmt_d line); [discriminate Hc | cbn; lia]. }
  unfold diagnostic_line. rewrite !length_append. cbn [String.length nl]. lia.
Qed.

Lemma assertionHandler_output_length_witness :
  (INT_MIN <= INT_MIN <= INT_MAX)%Z
  /\ exists out : string,
      run (assertionHandler "x > 0" "script.cpp" INT_MIN "f") process_start
      = Done 1%Z (write_stdout out process_start)
      /\ (String.length (c_str "script.cpp") + String.length (c_str "x > 0") + 24
          <= String.length out
          <= String.length (c_str "script.cpp") + String.length (c_str "x > 0") + 34)%nat.
Proof.
  assert (H : (INT_MIN <= INT_MIN <= INT_MAX)%Z) by (vm_compute; split; discriminate).
  split; [exact H|].
  exact (assertionHandler_output_length "x > 0" "script.cpp" INT_MIN "f" process_start H).
Defined.
